(** * Verification of the Go package [errors] (tweithoener/errors)

    A shallow embedding of [errors.go]: the [Error] struct, the attribute
    classifier [e] behind [E], [T], [Template.T] and [Template.E], the
    renderer [Error.Error] and [Error.Unwrap], followed by the properties
    the package specification states about them. *)

From Stdlib Require Import Strings.String Strings.Ascii ZArith List Bool Lia.
From Stdlib Require Import Numbers.DecimalString.
From stdpp Require Import gmap strings.

Local Open Scope string_scope.

(** ** Go strings

    A Go string is a sequence of bytes; [string] over [ascii] is exactly
    that.  [s +:+ t] is Go's [s + t]. *)

#[local] Arguments String.append !s1 s2 : simpl nomatch.

(** The line feed, Go's ["\n"]. *)
Definition LF : ascii := Ascii.ascii_of_nat 10.
Definition nl : string := String LF EmptyString.

(** Membership of a byte in a cutset ([strings.asciiSet.contains]). *)
Fixpoint contains (cutset : string) (c : ascii) : bool :=
  match cutset with
  | EmptyString => false
  | String d rest => if Ascii.eqb c d then true else contains rest c
  end.

(** [strings.TrimLeft] for an ASCII cutset: drop leading bytes that are in
    the cutset. *)
Fixpoint TrimLeft (s cutset : string) : string :=
  match s with
  | EmptyString => EmptyString
  | String c rest => if contains cutset c then TrimLeft rest cutset else s
  end.

(** [strings.TrimRight] for an ASCII cutset: drop trailing bytes that are in
    the cutset. *)
Fixpoint TrimRight (s cutset : string) : string :=
  match s with
  | EmptyString => EmptyString
  | String c rest =>
      match TrimRight rest cutset with
      | EmptyString => if contains cutset c then EmptyString else String c EmptyString
      | kept => String c kept
      end
  end.

(** [strings.Trim]: the Go library trims the right end, then the left end. *)
Definition Trim (s cutset : string) : string :=
  TrimLeft (TrimRight s cutset) cutset.

(** First and last byte of a string, when it has one. *)
Definition first_byte (s : string) : option ascii :=
  match s with
  | EmptyString => None
  | String c _ => Some c
  end.

Fixpoint last_byte (s : string) : option ascii :=
  match s with
  | EmptyString => None
  | String c rest =>
      match last_byte rest with
      | None => Some c
      | Some d => Some d
      end
  end.

(** ** The data model *)

(** The struct [Error].  The six attribute types [Mod], [Func], [Kind],
    [Op], [Obj] and [Code] are all [string] underneath; the type of the
    [Err] field is left open here and tied below. *)
Record ErrorOf (E : Type) : Type := mkError {
  Module : string;
  Function : string;
  Kind : string;
  Operation : string;
  Object : string;
  Code : string;
  Details : string;
  Err : E
}.

Arguments mkError {E}.
Arguments Module {E}.
Arguments Function {E}.
Arguments Kind {E}.
Arguments Operation {E}.
Arguments Object {E}.
Arguments Code {E}.
Arguments Details {E}.
Arguments Err {E}.

(** A non-nil value of the interface type [error]: either its dynamic type
    is [Error], or it is some other implementation, of which only the text
    returned by its [Error()] method matters here. *)
#[warnings="-register-all"]
Inductive errval : Type :=
| IsError (r : ErrorOf (option errval))
| Foreign (msg : string).

(** The interface type [error]: [None] is [nil]. *)
Definition error : Type := option errval.

Definition Error : Type := ErrorOf error.

(** [type Template Error]. *)
Definition Template : Type := Error.

(** The zero value [Error{}]. *)
Definition zeroError : Error := mkError "" "" "" "" "" "" "" None.

(** Field assignments [err.F = x]. *)
Definition set_Module (x : string) (r : Error) : Error :=
  mkError x (Function r) (Kind r) (Operation r) (Object r) (Code r) (Details r) (Err r).
Definition set_Function (x : string) (r : Error) : Error :=
  mkError (Module r) x (Kind r) (Operation r) (Object r) (Code r) (Details r) (Err r).
Definition set_Kind (x : string) (r : Error) : Error :=
  mkError (Module r) (Function r) x (Operation r) (Object r) (Code r) (Details r) (Err r).
Definition set_Operation (x : string) (r : Error) : Error :=
  mkError (Module r) (Function r) (Kind r) x (Object r) (Code r) (Details r) (Err r).
Definition set_Object (x : string) (r : Error) : Error :=
  mkError (Module r) (Function r) (Kind r) (Operation r) x (Code r) (Details r) (Err r).
Definition set_Code (x : string) (r : Error) : Error :=
  mkError (Module r) (Function r) (Kind r) (Operation r) (Object r) x (Details r) (Err r).
Definition set_Details (x : string) (r : Error) : Error :=
  mkError (Module r) (Function r) (Kind r) (Operation r) (Object r) (Code r) x (Err r).
Definition set_Err (x : error) (r : Error) : Error :=
  mkError (Module r) (Function r) (Kind r) (Operation r) (Object r) (Code r) (Details r) x.

(** ** The classifier *)

Section Classifier.

(** Values of every type the type switch of [e] sends to its [default]
    branch, and [fmt.Sprintf("%v", x)] on them. *)
Variable Value : Type.
Variable Sprint : Value -> string.

(** One element of [args ...interface{}], by the branch of the type
    switch it takes. *)
Inductive arg : Type :=
| ArgNil
| ArgMod (x : string)
| ArgFunc (x : string)
| ArgKind (x : string)
| ArgOp (x : string)
| ArgObj (x : string)
| ArgCode (x : string)
| ArgString (x : string)
| ArgError (x : errval)
| ArgOther (x : Value).

(** The body of the [for] loop of [e] for one argument. *)
Definition e_step (err : Error) (a : arg) : Error :=
  match a with
  | ArgNil => err
  | ArgMod x => set_Module x err
  | ArgFunc x => set_Function x err
  | ArgKind x => set_Kind x err
  | ArgOp x => set_Operation x err
  | ArgObj x => set_Object x err
  | ArgCode x => set_Code x err
  | ArgString x => set_Details (Details err +:+ "; " +:+ x) err
  | ArgError x => set_Err (Some x) err
  | ArgOther x => set_Details (Details err +:+ (Sprint x +:+ "; ")) err
  end.

(** The [for] loop of [e]. *)
Definition e_loop (err : Error) (args : list arg) : Error :=
  fold_left e_step args err.

(** [func e(err Error, args ...interface{}) Error]. *)
Definition e (err : Error) (args : list arg) : Error :=
  let err := e_loop err args in
  set_Details (Trim (Details err) "; ") err.

(** [func E(args ...interface{}) Error]. *)
Definition E (args : list arg) : Error := e zeroError args.

(** [func T(args ...interface{}) Template]. *)
Definition T (args : list arg) : Template := e zeroError args.

(** [func (tpl Template) T(args ...interface{}) Template]. *)
Definition Template_T (tpl : Template) (args : list arg) : Template := e tpl args.

(** [func (tpl Template) E(args ...interface{}) Error]. *)
Definition Template_E (tpl : Template) (args : list arg) : Error := e tpl args.

End Classifier.

Arguments ArgNil {Value}.
Arguments ArgMod {Value}.
Arguments ArgFunc {Value}.
Arguments ArgKind {Value}.
Arguments ArgOp {Value}.
Arguments ArgObj {Value}.
Arguments ArgCode {Value}.
Arguments ArgString {Value}.
Arguments ArgError {Value}.
Arguments ArgOther {Value}.
Arguments e_step {Value}.
Arguments e_loop {Value}.
Arguments e {Value}.
Arguments E {Value}.
Arguments T {Value}.
Arguments Template_T {Value}.
Arguments Template_E {Value}.

(** ** The renderer *)

(** The text [s] built for one record [err2] of the chain, lines 219-242 of
    [errors.go], before it is trimmed.  [err] is the receiver of
    [Error.Error], the outermost record. *)
Definition block (err err2 : Error) : string :=
  let s := Module err2 in
  let s := if String.eqb (Function err2) "" then s else s +:+ "/" +:+ Function err2 in
  let s := if String.eqb (Object err2) "" then s else s +:+ " [" +:+ Object err2 +:+ "]" in
  let s := s +:+ nl +:+ "   " in
  let s := if String.eqb (Operation err2) "" then s else s +:+ Operation err2 +:+ ": " in
  let s :=
    if String.eqb (Kind err) "" then s
    else
      let s := s +:+ Kind err2 in
      let s := if String.eqb (Code err) "" then s +:+ ":" else s in
      s +:+ " " in
  let s := if String.eqb (Code err2) "" then s else s +:+ "(" +:+ Code err2 +:+ "): " in
  let s := if String.eqb (Details err2) "" then s else s +:+ Details err2 in
  s.

(** The cutset of the trim of one block, [" /\n:;"]. *)
Definition block_cutset : string := " /" +:+ nl +:+ ":;".

(** The cutset of the deferred trim of the result, ["\n- ;/"]. *)
Definition result_cutset : string := nl +:+ "- ;/".

(** The [for e != nil] loop of [Error.Error], from the state [(e, ret)]. *)
Fixpoint Error_loop (err : Error) (e : errval) (ret : string) : string :=
  let ret := if String.eqb ret "" then ret else ret +:+ nl in
  let ret := ret +:+ " - " in
  match e with
  | Foreign msg => ret +:+ msg
  | IsError err2 =>
      let ret := ret +:+ Trim (block err err2) block_cutset in
      match Err err2 with
      | None => ret
      | Some e' => Error_loop err e' ret
      end
  end.

(** [func (err Error) Error() (ret string)], with its deferred trim. *)
Definition Error_Error (err : Error) : string :=
  Trim (Error_loop err (IsError err) "") result_cutset.

(** [func (err Error) Unwrap() error]. *)
Definition Unwrap (err : Error) : error := Err err.

(** [Unwrap] applied [n] times, going on through the wrapped value while
    its dynamic type is [Error]. *)
Fixpoint Unwrap_iter (n : nat) (x : error) : error :=
  match n with
  | O => x
  | S m =>
      match x with
      | Some (IsError r) => Unwrap_iter m (Unwrap r)
      | _ => None
      end
  end.

(** ** Vocabulary of the properties *)

(** The six singular attribute categories, the argument of a category that
    carries a given text, and the field a category is stored in. *)
Inductive category : Type := CMod | CFunc | CKind | COp | CObj | CCode.

Definition attr {Value : Type} (c : category) (x : string) : arg Value :=
  match c with
  | CMod => ArgMod x
  | CFunc => ArgFunc x
  | CKind => ArgKind x
  | COp => ArgOp x
  | CObj => ArgObj x
  | CCode => ArgCode x
  end.

Definition field (c : category) (r : Error) : string :=
  match c with
  | CMod => Module r
  | CFunc => Function r
  | CKind => Kind r
  | COp => Operation r
  | CObj => Object r
  | CCode => Code r
  end.

(** The test [arg == nil] of [e], negated. *)
Definition non_nil {Value : Type} (a : arg Value) : bool :=
  match a with
  | ArgNil => false
  | _ => true
  end.

(** The text one argument adds to [err.Details] in the loop of [e]. *)
Definition detail_text {Value : Type} (Sprint : Value -> string) (a : arg Value) : string :=
  match a with
  | ArgString x => "; " +:+ x
  | ArgOther x => Sprint x +:+ "; "
  | _ => ""
  end.

(** The text a whole argument list adds to [err.Details]. *)
Fixpoint details_added {Value : Type} (Sprint : Value -> string)
    (args : list (arg Value)) : string :=
  match args with
  | [] => ""
  | a :: rest => detail_text Sprint a +:+ details_added Sprint rest
  end.

(** The detail fragment the specification assigns to a value that is neither
    a singular attribute nor a cause (text verbatim, anything else in its
    default rendering); [None] for the other arguments. *)
Definition fragment {Value : Type} (Sprint : Value -> string) (a : arg Value) : option string :=
  match a with
  | ArgString x => Some x
  | ArgOther x => Some (Sprint x)
  | _ => None
  end.

(** The [Details] field as the specification describes it: the inherited
    [Details], if not empty, and then the fragments of the arguments, joined
    with ["; "] and trimmed. *)
Definition spec_Details {Value : Type} (Sprint : Value -> string)
    (err : Error) (args : list (arg Value)) : string :=
  let inherited := if String.eqb (Details err) "" then [] else [Details err] in
  Trim (String.concat "; " (inherited ++ omap (fragment Sprint) args)) "; ".

(** Every byte of [s] is in the cutset. *)
Fixpoint all_in (cutset s : string) : bool :=
  match s with
  | EmptyString => true
  | String c rest => contains cutset c && all_in cutset rest
  end.

(** [fmt.Sprintf("%v", x)] for a Go [int]: its decimal digits, with a minus
    sign when negative. *)
Definition Sprint_int (x : Z) : string := NilEmpty.string_of_int (Z.to_int x).

(** The three parts of [block]: what comes before the kind, the kind with
    its punctuation (lines 230-236), and what comes after. *)
Definition block_head (err2 : Error) : string :=
  let s := Module err2 in
  let s := if String.eqb (Function err2) "" then s else s +:+ "/" +:+ Function err2 in
  let s := if String.eqb (Object err2) "" then s else s +:+ " [" +:+ Object err2 +:+ "]" in
  let s := s +:+ nl +:+ "   " in
  if String.eqb (Operation err2) "" then s else s +:+ Operation err2 +:+ ": ".

Definition kind_part (err err2 : Error) : string :=
  if String.eqb (Kind err) "" then ""
  else Kind err2 +:+ (if String.eqb (Code err) "" then ":" else "") +:+ " ".

Definition block_tail (err2 : Error) : string :=
  (if String.eqb (Code err2) "" then "" else "(" +:+ Code err2 +:+ "): ")
  +:+ (if String.eqb (Details err2) "" then "" else Details err2).

(** What the specification says is appended for the kind of a node: the
    colon depends on the [Code] of the node itself. *)
Definition spec_kind_part (err err2 : Error) : string :=
  if String.eqb (Kind err) "" then ""
  else Kind err2 +:+ (if String.eqb (Code err2) "" then ":" else "") +:+ " ".

(** A chain of records, outermost first: each wraps the next one by value
    and the last one wraps nothing. *)
Fixpoint is_chain (rs : list Error) : Prop :=
  match rs with
  | [] => False
  | r :: rest =>
      match rest with
      | [] => Err r = None
      | r' :: _ => Err r = Some (IsError r') /\ is_chain rest
      end
  end.

(** The chain [E(layer_n..., E(layer_n-1..., ... E(innermost...)))] the way
    [TestError_Unwrap] builds it: every layer passes the record built so far
    as its last argument.  [layers] is outermost first. *)
Fixpoint nested {Value : Type} (Sprint : Value -> string)
    (innermost : list (arg Value)) (layers : list (list (arg Value))) : list Error :=
  match layers with
  | [] => [E Sprint innermost]
  | attrs :: rest =>
      let below := nested Sprint innermost rest in
      match below with
      | [] => []
      | prev :: _ => E Sprint (attrs ++ [ArgError (IsError prev)]) :: below
      end
  end.

(** ** Calling code

    Variables of the calling code that hold templates and errors, and the
    two derivations [dst := src.T(args...)] and [dst := src.E(args...)].
    The receiver is passed by value: the callee works on its own copy. *)
Inductive stmt (Value : Type) : Type :=
| DeriveT (dst src : string) (args : list (arg Value))
| DeriveE (dst src : string) (args : list (arg Value)).

Arguments DeriveT {Value}.
Arguments DeriveE {Value}.

Definition exec {Value : Type} (Sprint : Value -> string)
    (sigma : gmap string Error) (s : stmt Value) : option (gmap string Error) :=
  match s with
  | DeriveT dst src args =>
      match sigma !! src with
      | Some tpl => Some (<[dst := Template_T Sprint tpl args]> sigma)
      | None => None
      end
  | DeriveE dst src args =>
      match sigma !! src with
      | Some tpl => Some (<[dst := Template_E Sprint tpl args]> sigma)
      | None => None
      end
  end.

Definition stmt_dst {Value : Type} (s : stmt Value) : string :=
  match s with
  | DeriveT dst _ _ | DeriveE dst _ _ => dst
  end.

Definition stmt_src {Value : Type} (s : stmt Value) : string :=
  match s with
  | DeriveT _ src _ | DeriveE _ src _ => src
  end.

Definition stmt_args {Value : Type} (s : stmt Value) : list (arg Value) :=
  match s with
  | DeriveT _ _ args | DeriveE _ _ args => args
  end.

(** The records of the examples of [errors_test.go]. *)
Definition err1 : Error := E Sprint_int [ArgString "file does not exist"].
Definition err2 : Error :=
  E Sprint_int [ArgString "can't read config"; ArgError (IsError err1)].
Definition err3 : Error :=
  E Sprint_int [ArgMod "example"; ArgFunc "startup"; ArgOp "configure";
                ArgKind "configure failed"; ArgError (IsError err2)].

(** A record with a kind and a code, and a record with a kind and no code
    that wraps it. *)
Definition inner_with_code : Error := E Sprint_int [ArgKind "inner"; ArgCode "E1"].
Definition outer_without_code : Error :=
  E Sprint_int [ArgKind "outer"; ArgError (IsError inner_with_code)].

(** The variables of [ExampleTemplate_T] before its derivations. *)
Definition etpl1 : Template := T Sprint_int [ArgFunc "Template.T example"].
Definition example_store : gmap string Error := {[ "etpl1" := etpl1 ]}.

(** ** Vocabulary of the further properties *)

(** The texts [Error.Error] writes for a chain, one for each record and one
    for a wrapped value of another type, at which the loop returns. *)
Fixpoint chain_blocks (err : Error) (e : errval) : list string :=
  match e with
  | Foreign msg => [msg]
  | IsError err2 =>
      Trim (block err err2) block_cutset ::
      match Err err2 with
      | None => []
      | Some e' => chain_blocks err e'
      end
  end.

(** The bytes one of the three trims of the package removes: those of
    ["; "], of [" /\n:;"] and of ["\n- ;/"]. *)
Definition trimmed_bytes : string := " /" +:+ nl +:+ ":;-".

(** Neither the first nor the last byte of [s] is in the cutset. *)
Definition edge_ok (cutset : string) (b : option ascii) : bool :=
  match b with
  | Some c => negb (contains cutset c)
  | None => true
  end.

Definition clean_edges (cutset s : string) : bool :=
  edge_ok cutset (first_byte s) && edge_ok cutset (last_byte s).

(** The variable of [e] an argument writes to: one for each singular
    attribute, one for both kinds of details, one for the cause, none for
    nil. *)
Definition slot {Value : Type} (a : arg Value) : option nat :=
  match a with
  | ArgNil => None
  | ArgMod _ => Some 0
  | ArgFunc _ => Some 1
  | ArgKind _ => Some 2
  | ArgOp _ => Some 3
  | ArgObj _ => Some 4
  | ArgCode _ => Some 5
  | ArgString _ | ArgOther _ => Some 6
  | ArgError _ => Some 7
  end.

Definition independent {Value : Type} (a b : arg Value) : bool :=
  match slot a, slot b with
  | Some i, Some j => negb (Nat.eqb i j)
  | _, _ => true
  end.

(** The constants of lines 256-271. *)
Definition NotFound : string := "not found".
Definition NotAllowed : string := "not allowed".
Definition IllegalArgument : string := "illegal argument".
Definition IllegalValue : string := "illegal value".
Definition CreateErr : string := "can't create".
Definition ReadErr : string := "cant read".
Definition WriteErr : string := "can't write".
Definition DeleteErr : string := "can't delete".
Definition AlreadyExists : string := "already exists".
Definition ParseErr : string := "parsing failed".
Definition Failed : string := "operation failed".
Definition RecoveredPanic : string := "panic recovered".

Definition predefined_kinds : list string :=
  [NotFound; NotAllowed; IllegalArgument; IllegalValue; CreateErr; ReadErr;
   WriteErr; DeleteErr; AlreadyExists; ParseErr; Failed; RecoveredPanic].

(** ** Facts about trimming *)

Lemma append_empty_r (s : string) : s +:+ "" = s.
Proof. induction s as [|c s IH]; simpl; [reflexivity | now rewrite IH]. Qed.

Lemma append_assoc (s t u : string) : (s +:+ t) +:+ u = s +:+ t +:+ u.
Proof. induction s as [|c s IH]; simpl; [reflexivity | now rewrite IH]. Qed.

Lemma all_in_app (cut s t : string) :
  all_in cut (s +:+ t) = all_in cut s && all_in cut t.
Proof.
  induction s as [|c s IH]; simpl; [reflexivity|].
  rewrite IH. now rewrite andb_assoc.
Qed.

Lemma TrimLeft_empty_iff (cut s : string) :
  TrimLeft s cut = "" <-> all_in cut s = true.
Proof.
  induction s as [|c s IH]; simpl.
  - split; reflexivity.
  - destruct (contains cut c); simpl.
    + exact IH.
    + split; discriminate.
Qed.

Lemma all_in_TrimRight (cut s : string) :
  all_in cut (TrimRight s cut) = all_in cut s.
Proof.
  induction s as [|c s IH]; simpl; [reflexivity|].
  destruct (TrimRight s cut) as [|d kept] eqn:HR.
  - simpl in IH. rewrite <- IH.
    destruct (contains cut c) eqn:Hc; simpl; rewrite ?Hc; reflexivity.
  - rewrite <- IH. reflexivity.
Qed.

Lemma TrimRight_all_in (cut s : string) :
  all_in cut s = true -> TrimRight s cut = "".
Proof.
  induction s as [|c s IH]; simpl; [reflexivity|].
  intros [Hc Hs]%andb_true_iff. now rewrite (IH Hs), Hc.
Qed.

Lemma Trim_empty_iff (cut s : string) :
  Trim s cut = "" <-> all_in cut s = true.
Proof.
  unfold Trim. rewrite TrimLeft_empty_iff. now rewrite all_in_TrimRight.
Qed.

Lemma first_byte_TrimLeft (cut s : string) (c : ascii) :
  first_byte (TrimLeft s cut) = Some c -> contains cut c = false.
Proof.
  induction s as [|a s IH]; simpl; [discriminate|].
  destruct (contains cut a) eqn:Ha; [exact IH|].
  simpl. intros [= <-]. exact Ha.
Qed.

Lemma last_byte_cons (a : ascii) (s : string) : last_byte (String a s) <> None.
Proof. simpl. destruct (last_byte s); discriminate. Qed.

Lemma last_byte_TrimRight (cut s : string) (c : ascii) :
  last_byte (TrimRight s cut) = Some c -> contains cut c = false.
Proof.
  induction s as [|a s IH]; simpl; [discriminate|].
  destruct (TrimRight s cut) as [|d kept] eqn:HR.
  - destruct (contains cut a) eqn:Ha; simpl; [discriminate|].
    intros [= <-]. exact Ha.
  - change (last_byte (String a (String d kept)))
      with (match last_byte (String d kept) with
            | None => Some a
            | Some x => Some x
            end).
    destruct (last_byte (String d kept)) as [x|] eqn:HL.
    + intros [= <-]. now apply IH.
    + now destruct (last_byte_cons d kept).
Qed.

Lemma last_byte_TrimLeft (cut s : string) (c : ascii) :
  last_byte (TrimLeft s cut) = Some c -> last_byte s = Some c.
Proof.
  induction s as [|a s IH]; [trivial|].
  cbn [TrimLeft]. destruct (contains cut a).
  - intros H. apply IH in H. simpl. now rewrite H.
  - trivial.
Qed.

Lemma first_byte_Trim (cut s : string) (c : ascii) :
  first_byte (Trim s cut) = Some c -> contains cut c = false.
Proof. apply first_byte_TrimLeft. Qed.

Lemma last_byte_Trim (cut s : string) (c : ascii) :
  last_byte (Trim s cut) = Some c -> contains cut c = false.
Proof.
  unfold Trim. intros H. apply last_byte_TrimLeft in H.
  now apply last_byte_TrimRight in H.
Qed.

(** A leading byte of the cutset does not survive. *)
Lemma Trim_cons_in (cut s : string) (c : ascii) :
  contains cut c = true -> Trim (String c s) cut = Trim s cut.
Proof.
  intros Hc. unfold Trim. simpl.
  destruct (TrimRight s cut) as [|d kept]; simpl; rewrite Hc; reflexivity.
Qed.

Lemma Trim_app_in_l (cut p s : string) :
  all_in cut p = true -> Trim (p +:+ s) cut = Trim s cut.
Proof.
  induction p as [|c p IH]; simpl; [reflexivity|].
  intros [Hc Hp]%andb_true_iff. rewrite Trim_cons_in by exact Hc. now apply IH.
Qed.

(** Trailing bytes of the cutset do not survive either. *)
Lemma TrimRight_app_in_r (cut s t : string) :
  all_in cut t = true -> TrimRight (s +:+ t) cut = TrimRight s cut.
Proof.
  intros Ht. induction s as [|c s IH]; simpl.
  - now apply TrimRight_all_in.
  - now rewrite IH.
Qed.

Lemma Trim_app_in_r (cut s t : string) :
  all_in cut t = true -> Trim (s +:+ t) cut = Trim s cut.
Proof. intros Ht. unfold Trim. now rewrite TrimRight_app_in_r. Qed.

(** A string with clean edges is left alone. *)
Lemma TrimLeft_fixed (cut s : string) :
  (forall c, first_byte s = Some c -> contains cut c = false) ->
  TrimLeft s cut = s.
Proof.
  destruct s as [|a s]; simpl; [reflexivity|].
  intros H. now rewrite (H a eq_refl).
Qed.

Lemma TrimRight_fixed (cut s : string) :
  (forall c, last_byte s = Some c -> contains cut c = false) ->
  TrimRight s cut = s.
Proof.
  induction s as [|a s IH]; simpl; [reflexivity|].
  intros H. destruct (last_byte s) as [d|] eqn:HL.
  - rewrite IH by exact H.
    destruct s; [discriminate | reflexivity].
  - destruct s as [|b s]; [| now destruct (last_byte_cons b s)].
    simpl. now rewrite (H a eq_refl).
Qed.

Lemma Trim_idempotent (cut s : string) : Trim (Trim s cut) cut = Trim s cut.
Proof.
  unfold Trim at 1.
  rewrite TrimRight_fixed by apply last_byte_Trim.
  apply TrimLeft_fixed, first_byte_Trim.
Qed.

(** ** Facts about the classifier *)

Section ClassifierFacts.

Context {Value : Type} (Sprint : Value -> string).
Implicit Types (err : Error) (a : arg Value) (args pre post : list (arg Value)).
Implicit Types (c : category) (x : string).

Lemma e_loop_app err pre post :
  e_loop Sprint err (pre ++ post) = e_loop Sprint (e_loop Sprint err pre) post.
Proof. unfold e_loop. apply fold_left_app. Qed.

Lemma e_loop_cons err a args :
  e_loop Sprint err (a :: args) = e_loop Sprint (e_step Sprint err a) args.
Proof. reflexivity. Qed.

(** The trim at the end of [e] touches [Details] only. *)
Lemma field_e c err args :
  field c (e Sprint err args) = field c (e_loop Sprint err args).
Proof. now destruct c. Qed.

Lemma Err_e err args : Err (e Sprint err args) = Err (e_loop Sprint err args).
Proof. reflexivity. Qed.

Lemma Details_e err args :
  Details (e Sprint err args) = Trim (Details (e_loop Sprint err args)) "; ".
Proof. reflexivity. Qed.

Lemma field_e_step_attr c x err : field c (e_step Sprint err (attr c x)) = x.
Proof. now destruct c. Qed.

Lemma field_e_step_other c err a :
  (forall y, a <> attr c y) -> field c (e_step Sprint err a) = field c err.
Proof.
  intros H. destruct a; try (now destruct c);
    destruct c; try reflexivity; now destruct (H x).
Qed.

(** A field is left alone by arguments of the other categories. *)
Lemma field_e_loop_absent c args : forall err,
  (forall y, ~ In (attr c y) args) ->
  field c (e_loop Sprint err args) = field c err.
Proof.
  induction args as [|a args IH]; intros err H; [reflexivity|].
  rewrite e_loop_cons, IH.
  - apply field_e_step_other. intros y ->. apply (H y). now left.
  - intros y Hy. apply (H y). now right.
Qed.

Lemma Err_e_loop_absent args : forall err,
  (forall y, ~ In (ArgError y) args) ->
  Err (e_loop Sprint err args) = Err err.
Proof.
  induction args as [|a args IH]; intros err H; [reflexivity|].
  rewrite e_loop_cons, IH.
  - destruct a; try reflexivity. destruct (H x). now left.
  - intros y Hy. apply (H y). now right.
Qed.

(** The loop only ever appends to [Details]. *)
Lemma Details_e_loop args : forall err,
  Details (e_loop Sprint err args) = Details err +:+ details_added Sprint args.
Proof.
  induction args as [|a args IH]; intros err.
  - simpl. now rewrite append_empty_r.
  - rewrite e_loop_cons, IH. cbn [details_added].
    destruct a; cbn [e_step detail_text]; try reflexivity.
    + cbn [set_Details Details]. now rewrite append_assoc.
    + cbn [set_Details Details]. now rewrite append_assoc.
Qed.

(** A set cause stays set. *)
Lemma Err_e_loop_some args : forall err,
  Err err <> None -> Err (e_loop Sprint err args) <> None.
Proof.
  induction args as [|a args IH]; intros err H; [exact H|].
  rewrite e_loop_cons. apply IH. destruct a; try exact H. discriminate.
Qed.

(** A field that is not empty stays so unless an empty attribute of its
    category is passed. *)
Lemma field_e_loop_nonempty c args : forall err,
  field c err <> "" -> ~ In (attr c "") args ->
  field c (e_loop Sprint err args) <> "".
Proof.
  induction args as [|a args IH]; intros err H Hno; [exact H|].
  rewrite e_loop_cons. apply IH.
  - destruct (String.eq_dec (field c (e_step Sprint err a)) (field c err)) as [->|Hne];
      [exact H|].
    intros Hempty. apply Hno. left.
    destruct a; destruct c; cbn in Hne, Hempty |- *;
      try (now destruct Hne); now rewrite Hempty.
  - intros Hin. apply Hno. now right.
Qed.

End ClassifierFacts.

(** ** Rendering: the scenario of [ExampleE] *)

(** C2. [E("file does not exist")] renders to that text; wrapped in
    [E("can't read config", _)] it renders to two lines, the second one
    starting with [" - "]; wrapped once more with a module, a function, an
    operation and a kind it renders to the four lines of the example. *)
Theorem scenario_rendering :
  Error_Error err1 = "file does not exist"
  /\ Error_Error err2 = "can't read config" +:+ nl +:+ " - file does not exist"
  /\ Error_Error err3 =
       "example/startup" +:+ nl +:+ "   configure: configure failed" +:+ nl
       +:+ " - can't read config" +:+ nl +:+ " - file does not exist".
Proof. repeat split; vm_compute; reflexivity. Qed.

(** ** Classification *)

Section Classification.

Context {Value : Type} (Sprint : Value -> string).
Implicit Types (err : Error) (a : arg Value) (args pre post : list (arg Value)).

(** C4. Override law: whatever the starting record and whatever comes
    before it in the argument list (earlier values of the same category
    included), the last value of a singular category is the one the field
    holds, and the last cause passed is the one the record wraps. *)
Theorem override_law err pre post :
  (forall (c : category) (x : string),
      (forall y, ~ In (attr c y) post) ->
      field c (e Sprint err (pre ++ attr c x :: post)) = x)
  /\ (forall x : errval,
      (forall y, ~ In (ArgError y) post) ->
      Err (e Sprint err (pre ++ ArgError x :: post)) = Some x).
Proof.
  split.
  - intros c x Hpost.
    rewrite field_e, e_loop_app, e_loop_cons, field_e_loop_absent by exact Hpost.
    apply field_e_step_attr.
  - intros x Hpost.
    rewrite Err_e, e_loop_app, e_loop_cons, Err_e_loop_absent by exact Hpost.
    reflexivity.
Qed.

Lemma e_loop_filter_nil args : forall err,
  e_loop Sprint err (List.filter non_nil args) = e_loop Sprint err args.
Proof.
  induction args as [|a args IH]; intros err; [reflexivity|].
  destruct a; cbn [List.filter non_nil]; rewrite ?e_loop_cons; apply IH.
Qed.

(** C5. Nil arguments are ignored: classification of a list gives the
    record classification gives once every nil is taken out of it. *)
Theorem nil_arguments_ignored err args :
  e Sprint err args = e Sprint err (List.filter non_nil args).
Proof. unfold e. now rewrite e_loop_filter_nil. Qed.

Lemma details_added_strings (ds : list string) :
  details_added Sprint (map ArgString ds) =
  match ds with
  | [] => ""
  | _ :: _ => "; " +:+ String.concat "; " ds
  end.
Proof.
  induction ds as [|d ds IH]; [reflexivity|].
  cbn [map details_added detail_text]. rewrite IH.
  destruct ds as [|d' ds].
  - cbn [String.concat]. now rewrite append_assoc, append_empty_r.
  - cbn [String.concat]. now rewrite !append_assoc.
Qed.

(** C6. Plain-text details only, from the empty record: [Details] is the
    trim of [d1 + "; " + d2 + ... + "; " + dn]. *)
Theorem details_of_texts (ds : list string) :
  Details (E Sprint (map ArgString ds)) = Trim (String.concat "; " ds) "; ".
Proof.
  unfold E. rewrite Details_e, Details_e_loop, details_added_strings.
  destruct ds as [|d ds]; [reflexivity|].
  cbn [zeroError Details]. change ("" +:+ ?s) with s.
  now apply Trim_app_in_l.
Qed.

Lemma not_in_details_cutset (c : ascii) :
  contains "; " c = false -> c <> ";"%char /\ c <> " "%char.
Proof.
  cbn [contains].
  destruct (Ascii.eqb_spec c ";"); [discriminate|].
  destruct (Ascii.eqb_spec c " "); [discriminate|].
  now split.
Qed.

(** C10. Whatever the starting record and the arguments, the [Details] of
    the record [e] returns (so of [E], [T], [Template.T] and [Template.E])
    neither begins nor ends with [';'] or a space; and semicolons and
    spaces at the end of a last text detail are stripped. *)
Theorem details_edges_clean err args :
  (forall c : ascii,
      first_byte (Details (e Sprint err args)) = Some c
      \/ last_byte (Details (e Sprint err args)) = Some c ->
      c <> ";"%char /\ c <> " "%char)
  /\ (forall x t : string,
      all_in "; " t = true ->
      Details (e Sprint err (args ++ [ArgString (x +:+ t)]))
      = Details (e Sprint err (args ++ [ArgString x]))).
Proof.
  split.
  - intros c H. apply not_in_details_cutset. rewrite Details_e in H.
    destruct H as [H|H].
    + now apply first_byte_Trim in H.
    + now apply last_byte_Trim in H.
  - intros x t Ht.
    rewrite !Details_e, !Details_e_loop.
    assert (Hadd : forall y, details_added Sprint (args ++ [ArgString y])
                             = details_added Sprint args +:+ "; " +:+ y).
    { intros y. induction args as [|a l IH]; cbn [app details_added detail_text].
      - now rewrite append_assoc, append_empty_r.
      - now rewrite IH, append_assoc. }
    rewrite !Hadd, <- !append_assoc.
    now apply Trim_app_in_r.
Qed.

End Classification.

(** ** Templates *)

Section Templates.

Context {Value : Type} (Sprint : Value -> string).
Implicit Types (tpl : Template) (args : list (arg Value)).
Implicit Types (sigma : gmap string Error) (s : stmt Value).

Lemma exec_derives sigma s tpl :
  sigma !! stmt_src s = Some tpl ->
  exec Sprint sigma s = Some (<[stmt_dst s := e Sprint tpl (stmt_args s)]> sigma).
Proof. intros H. destruct s; cbn in H |- *; now rewrite H. Qed.

(** C7. Two derivations from the template held by the variable [p], one
    after the other, into two other variables: both run, [p] still holds
    the template it held, each result is what its own argument list makes
    of that template, and a field or cause its own list does not mention
    is the template's, whatever the other list sets. *)
Theorem derivation_non_destructive sigma s1 s2 (p : string) tpl :
  sigma !! p = Some tpl ->
  stmt_src s1 = p -> stmt_src s2 = p ->
  stmt_dst s1 <> p -> stmt_dst s2 <> p -> stmt_dst s1 <> stmt_dst s2 ->
  exists sigma1 sigma2 r1 r2,
    exec Sprint sigma s1 = Some sigma1
    /\ exec Sprint sigma1 s2 = Some sigma2
    /\ sigma2 !! p = Some tpl
    /\ sigma2 !! stmt_dst s1 = Some r1
    /\ sigma2 !! stmt_dst s2 = Some r2
    /\ r1 = e Sprint tpl (stmt_args s1)
    /\ r2 = e Sprint tpl (stmt_args s2)
    /\ (forall c, (forall y, ~ In (attr c y) (stmt_args s1)) -> field c r1 = field c tpl)
    /\ (forall c, (forall y, ~ In (attr c y) (stmt_args s2)) -> field c r2 = field c tpl)
    /\ ((forall y, ~ In (ArgError y) (stmt_args s1)) -> Err r1 = Err tpl)
    /\ ((forall y, ~ In (ArgError y) (stmt_args s2)) -> Err r2 = Err tpl).
Proof.
  intros Hp Hs1 Hs2 Hd1 Hd2 Hd12.
  exists (<[stmt_dst s1 := e Sprint tpl (stmt_args s1)]> sigma).
  exists (<[stmt_dst s2 := e Sprint tpl (stmt_args s2)]>
            (<[stmt_dst s1 := e Sprint tpl (stmt_args s1)]> sigma)).
  exists (e Sprint tpl (stmt_args s1)), (e Sprint tpl (stmt_args s2)).
  split; [apply exec_derives; congruence|].
  split.
  { apply exec_derives. rewrite Hs2, lookup_insert_ne by exact Hd1. exact Hp. }
  split; [now rewrite !lookup_insert_ne by assumption|].
  split.
  { rewrite lookup_insert_ne by (intros Heq; now apply Hd12).
    apply lookup_insert_eq. }
  split; [apply lookup_insert_eq|].
  repeat split.
  - intros c H. rewrite field_e. now apply field_e_loop_absent.
  - intros c H. rewrite field_e. now apply field_e_loop_absent.
  - intros H. rewrite Err_e. now apply Err_e_loop_absent.
  - intros H. rewrite Err_e. now apply Err_e_loop_absent.
Qed.

(** C8, as the code has it.  The fields of the template are copied into
    the derived record before the arguments are applied: with no
    argument the derived record is the template, its [Details] trimmed; a
    singular field for which the list holds no value is the template's,
    and one for which it holds values is the last of them; the same goes
    for the cause; and [Details] is the trim of the template's [Details]
    followed by what the arguments add.  So a singular field that is not
    empty stays not empty unless an attribute of its category with the
    empty text is passed, a cause that is set stays set, and [Details]
    holding a byte other than [';'] and the space does not become empty.
    [Template.T] and [Template.E] derive the same record. *)
Theorem derivation_keeps_set_fields tpl args :
  Template_T Sprint tpl args = Template_E Sprint tpl args
  /\ Template_E Sprint tpl [] = set_Details (Trim (Details tpl) "; ") tpl
  /\ (forall c, (forall y, ~ In (attr c y) args) ->
                field c (Template_E Sprint tpl args) = field c tpl)
  /\ (forall c x (pre post : list (arg Value)), args = (pre ++ attr c x :: post)%list ->
                (forall y, ~ In (attr c y) post) ->
                field c (Template_E Sprint tpl args) = x)
  /\ ((forall y, ~ In (ArgError y) args) -> Err (Template_E Sprint tpl args) = Err tpl)
  /\ (forall x (pre post : list (arg Value)), args = (pre ++ ArgError x :: post)%list ->
                (forall y, ~ In (ArgError y) post) ->
                Err (Template_E Sprint tpl args) = Some x)
  /\ Details (Template_E Sprint tpl args)
     = Trim (Details tpl +:+ details_added Sprint args) "; "
  /\ (forall c, field c tpl <> "" -> ~ In (attr c "") args ->
                field c (Template_E Sprint tpl args) <> "")
  /\ (Err tpl <> None -> Err (Template_E Sprint tpl args) <> None)
  /\ (all_in "; " (Details tpl) = false -> Details (Template_E Sprint tpl args) <> "").
Proof.
  unfold Template_T, Template_E. repeat split.
  - intros c H. rewrite field_e. now apply field_e_loop_absent.
  - intros c x pre post -> Hpost.
    rewrite field_e, e_loop_app, e_loop_cons, field_e_loop_absent by exact Hpost.
    apply field_e_step_attr.
  - intros H. rewrite Err_e. now apply Err_e_loop_absent.
  - intros x pre post -> Hpost.
    rewrite Err_e, e_loop_app, e_loop_cons, Err_e_loop_absent by exact Hpost.
    reflexivity.
  - now rewrite Details_e, Details_e_loop.
  - intros c H Hno. rewrite field_e. now apply field_e_loop_nonempty.
  - intros H. rewrite Err_e. now apply Err_e_loop_some.
  - intros H. rewrite Details_e, Details_e_loop, Trim_empty_iff, all_in_app, H.
    discriminate.
Qed.

End Templates.

(** ** Unwrapping *)

Lemma last_cons_default {A : Type} (l : list A) : forall a b : A,
  List.last (a :: l) b = List.last l a.
Proof.
  induction l as [|x l IH]; intros a b; [reflexivity|].
  change (List.last (a :: x :: l) b) with (List.last (x :: l) b).
  now rewrite !IH.
Qed.

Lemma Unwrap_iter_chain (rs : list Error) : forall r : Error,
  is_chain (r :: rs) ->
  Unwrap_iter (length rs) (Some (IsError r)) = Some (IsError (List.last rs r))
  /\ Unwrap (List.last rs r) = None.
Proof.
  induction rs as [|r' rs IH]; intros r H.
  - split; [reflexivity | exact H].
  - destruct H as [Hwrap Hrest].
    destruct (IH r' Hrest) as [Hreach Hend].
    cbn [length Unwrap_iter]. unfold Unwrap at 1. rewrite Hwrap.
    rewrite last_cons_default. now split.
Qed.

(** C9. In a chain of [N] records, each wrapping the next by value and the
    innermost wrapping nothing, [N - 1] applications of [Unwrap] lead from
    the outermost to the innermost record, whose own [Unwrap] is nil. *)
Theorem unwrap_reaches_innermost (outermost : Error) (inner : list Error) :
  is_chain (outermost :: inner) ->
  let N := length (outermost :: inner) in
  let innermost := List.last inner outermost in
  Unwrap_iter (N - 1) (Some (IsError outermost)) = Some (IsError innermost)
  /\ Unwrap innermost = None.
Proof.
  intros H. cbn zeta. cbn [length]. rewrite Nat.sub_1_r. cbn [Nat.pred].
  now apply Unwrap_iter_chain.
Qed.

(** Records nested through [E] the way the tests do it form such a chain,
    one record per layer and one for the innermost. *)
Lemma nested_is_chain {Value : Type} (Sprint : Value -> string)
    (innermost : list (arg Value)) (layers : list (list (arg Value))) :
  (forall y, ~ In (ArgError y) innermost) ->
  is_chain (nested Sprint innermost layers)
  /\ length (nested Sprint innermost layers) = S (length layers).
Proof.
  intros Hno. induction layers as [|attrs layers [IHc IHl]].
  - split; [|reflexivity]. cbn [nested is_chain]. unfold E.
    rewrite Err_e. now apply Err_e_loop_absent.
  - cbn [nested]. destruct (nested Sprint innermost layers) as [|prev below];
      [discriminate|].
    split; [|cbn [length] in IHl |- *; now rewrite IHl].
    cbn [is_chain]. split; [|exact IHc].
    unfold E. rewrite Err_e, e_loop_app. reflexivity.
Qed.

(** ** The renderer, block by block *)

Lemma block_split (err err2 : Error) :
  block err err2 = block_head err2 +:+ kind_part err err2 +:+ block_tail err2.
Proof.
  unfold block, block_head, kind_part, block_tail.
  destruct (String.eqb (Function err2) ""), (String.eqb (Object err2) ""),
    (String.eqb (Operation err2) ""), (String.eqb (Kind err) ""),
    (String.eqb (Code err) ""), (String.eqb (Code err2) ""),
    (String.eqb (Details err2) "");
    cbn zeta; rewrite ?append_assoc, ?append_empty_r; reflexivity.
Qed.

(** The kind is appended exactly when the outermost record has one, and
    where the code of the node and of the outermost record are both empty or
    both set (the outermost record itself, for one) the colon is as the
    specification has it. *)
Lemma kind_part_agrees (err err2 : Error) :
  (Kind err = "" -> kind_part err err2 = "")
  /\ (Kind err <> "" -> exists punct, kind_part err err2 = Kind err2 +:+ punct +:+ " ")
  /\ (String.eqb (Code err) "" = String.eqb (Code err2) "" ->
      kind_part err err2 = spec_kind_part err err2).
Proof.
  unfold kind_part, spec_kind_part. repeat split.
  - intros ->. reflexivity.
  - intros H. apply String.eqb_neq in H. rewrite H. eauto.
  - intros ->. reflexivity.
Qed.

(** C1, at a record with a kind and a code wrapped by a record with a kind
    and no code: [Error.Error] tests the code of its receiver (line 232),
    not the code of the node, and puts a colon after the kind of the node
    although the code of the node is set. *)
Theorem colon_follows_outermost_code :
  Kind outer_without_code = "outer" /\ Code outer_without_code = ""
  /\ Kind inner_with_code = "inner" /\ Code inner_with_code = "E1"
  /\ Err outer_without_code = Some (IsError inner_with_code)
  /\ kind_part outer_without_code inner_with_code = "inner: "
  /\ spec_kind_part outer_without_code inner_with_code = "inner "
  /\ block outer_without_code inner_with_code = nl +:+ "   inner: (E1): "
  /\ Error_Error outer_without_code = "outer" +:+ nl +:+ " - inner: (E1)".
Proof. repeat split; vm_compute; reflexivity. Qed.

(** ** Details of mixed argument lists *)

Section DetailsJoin.

Context {Value : Type} (Sprint : Value -> string).
Implicit Types (err : Error) (args : list (arg Value)).

Lemma details_added_texts_only args :
  (forall v, ~ In (ArgOther v) args) ->
  details_added Sprint args
  = details_added Sprint (map ArgString (omap (fragment Sprint) args)).
Proof.
  induction args as [|a args IH]; intros H; [reflexivity|].
  assert (IH' := IH (fun v Hv => H v (or_intror Hv))).
  destruct a; cbn [details_added detail_text omap list_omap fragment map];
    rewrite ?IH'; try reflexivity.
  destruct (H x). now left.
Qed.

(** Without arguments of the [default] branch the [Details] field is the
    join the specification describes. *)
Lemma details_join_texts_only err args :
  (forall v, ~ In (ArgOther v) args) ->
  Details (e Sprint err args) = spec_Details Sprint err args.
Proof.
  intros H. unfold spec_Details.
  rewrite Details_e, Details_e_loop, details_added_texts_only by exact H.
  rewrite details_added_strings.
  destruct (String.eqb_spec (Details err) "") as [->|Hne].
  - destruct (omap (fragment Sprint) args) as [|d ds]; [reflexivity|].
    change ("" +:+ ?s) with s. cbn [app]. now apply Trim_app_in_l.
  - destruct (omap (fragment Sprint) args) as [|d ds].
    + now rewrite append_empty_r.
    + reflexivity.
Qed.

End DetailsJoin.

(** C3, at [E("a", 1)] and at [E(1, "a")]: the [default] branch of [e] puts
    the separator after the rendered value (line 196) where the [string]
    branch puts it before (line 192), so a text followed by another value is
    not separated from it, and a text that follows another value is
    separated twice. *)
Theorem details_separator_misplaced :
  Details (E Sprint_int [ArgString "a"; ArgOther 1%Z]) = "a1"
  /\ spec_Details Sprint_int zeroError [ArgString "a"; ArgOther 1%Z] = "a; 1"
  /\ Details (E Sprint_int [ArgOther 1%Z; ArgString "a"]) = "1; ; a"
  /\ spec_Details Sprint_int zeroError [ArgOther 1%Z; ArgString "a"] = "1; a".
Proof. repeat split; vm_compute; reflexivity. Qed.

(** ** Instances *)

(** [TestEWithNill]. *)
Example E_with_nil :
  Error_Error (E Sprint_int [ArgString "hallo"; ArgNil; ArgNil; ArgNil; ArgString "test"])
  = "hallo; test".
Proof. vm_compute. reflexivity. Qed.

(** The override law at [E(Kind("a"), Kind("b"), "d")] and at two causes. *)
Lemma override_law_witness :
  field CKind (e Sprint_int zeroError ([ArgKind "a"] ++ attr CKind "b" :: [ArgString "d"])) = "b"
  /\ Err (e Sprint_int zeroError ([ArgError (Foreign "first")] ++ ArgError (Foreign "last") :: []))
     = Some (Foreign "last").
Proof.
  split.
  - apply (proj1 (override_law Sprint_int zeroError [ArgKind "a"] [ArgString "d"]) CKind "b").
    intros y [H|[]]. discriminate H.
  - apply (proj2 (override_law Sprint_int zeroError [ArgError (Foreign "first")] [])).
    intros y [].
Defined.

(** [E("a; ")]: the first and the last byte of [Details] is ['a']. *)
Lemma details_edges_clean_witness :
  ("a"%char <> ";"%char /\ "a"%char <> " "%char)
  /\ Details (e Sprint_int zeroError ([] ++ [ArgString ("a" +:+ "; ")]))
     = Details (e Sprint_int zeroError ([] ++ [ArgString "a"])).
Proof.
  split.
  - apply (proj1 (details_edges_clean Sprint_int zeroError [ArgString "a; "]) "a"%char).
    left. vm_compute. reflexivity.
  - apply (proj2 (details_edges_clean Sprint_int zeroError []) "a" "; ").
    vm_compute. reflexivity.
Defined.

(** [ExampleTemplate_T]: [etpl2 := etpl1.T(Obj("etpl2"))], then
    [err1 := etpl1.E(Op("operation 1"))]. *)
Lemma derivation_non_destructive_witness :
  exists (sigma2 : gmap string Error) (r1 r2 : Error),
    sigma2 !! "etpl1" = Some etpl1
    /\ sigma2 !! "etpl2" = Some r1 /\ sigma2 !! "err1" = Some r2
    /\ Operation r1 = Operation etpl1 /\ Object r2 = Object etpl1.
Proof.
  destruct (derivation_non_destructive Sprint_int example_store
              (DeriveT "etpl2" "etpl1" [ArgObj "etpl2"])
              (DeriveE "err1" "etpl1" [ArgOp "operation 1"])
              "etpl1" etpl1)
    as (sigma1 & sigma2 & r1 & r2 & _ & _ & Hp & H1 & H2 & _ & _ & F1 & F2 & _ & _).
  - vm_compute. reflexivity.
  - reflexivity.
  - reflexivity.
  - discriminate.
  - discriminate.
  - discriminate.
  - exists sigma2, r1, r2. repeat split; try assumption.
    + apply (F1 COp). intros y [H|[]]. discriminate H.
    + apply (F2 CObj). intros y [H|[]]. discriminate H.
Defined.

(** C8 as stated fails: a template with the module ["m"], derived with
    [Mod("")], gives a record whose module is empty; and the template
    [Template{Details: ";"}], derived with no argument, gives a record whose
    details are empty. *)
Lemma unset_by_empty_attribute :
  Module (T Sprint_int [ArgMod "m"]) = "m"
  /\ Module (Template_E Sprint_int (T Sprint_int [ArgMod "m"]) [ArgMod ""]) = ""
  /\ Module (Template_T Sprint_int (T Sprint_int [ArgMod "m"]) [ArgMod ""]) = ""
  /\ Details (Template_E Sprint_int (set_Details ";" zeroError) []) = ""
  /\ ~ (forall (tpl : Template) (args : list (arg Z)) (c : category),
          field c tpl <> "" -> field c (Template_E Sprint_int tpl args) <> "").
Proof.
  repeat split.
  intros H.
  apply (H (T Sprint_int [ArgMod "m"]) [ArgMod ""] CMod); [discriminate | reflexivity].
Qed.

(** A template with a module, an object, a detail and a cause, derived
    with a function, another module and another detail. *)
Lemma derivation_keeps_set_fields_witness :
  let tpl := T Sprint_int [ArgMod "m"; ArgObj "o"; ArgString "d"; ArgError (Foreign "cause")] in
  let args := [ArgFunc "f"; ArgMod "m2"; ArgString "d2"] in
  field CObj (Template_E Sprint_int tpl args) = field CObj tpl
  /\ field CMod (Template_E Sprint_int tpl args) = "m2"
  /\ Err (Template_E Sprint_int tpl args) = Err tpl
  /\ field CMod (Template_E Sprint_int tpl args) <> ""
  /\ Err (Template_E Sprint_int tpl args) <> None
  /\ Details (Template_E Sprint_int tpl args) <> "".
Proof.
  intros tpl args.
  destruct (derivation_keeps_set_fields Sprint_int tpl args)
    as (_ & _ & Hsame & Hlast & Hcause & _ & _ & HF & HE & HD).
  refine (conj _ (conj _ (conj _ (conj _ (conj _ _))))).
  - apply (Hsame CObj). intros y [H|[H|[H|[]]]]; discriminate H.
  - apply (Hlast CMod "m2" [ArgFunc "f"] [ArgString "d2"]); [reflexivity|].
    intros y [H|[]]. discriminate H.
  - apply Hcause. intros y [H|[H|[H|[]]]]; discriminate H.
  - apply (HF CMod).
    + vm_compute. discriminate.
    + intros [H|[H|[H|[]]]]; discriminate H.
  - apply HE. vm_compute. discriminate.
  - apply HD. vm_compute. reflexivity.
Defined.

(** The chain [err3], [err2], [err1] of [ExampleE]. *)
Lemma unwrap_reaches_innermost_witness :
  Unwrap_iter 2 (Some (IsError err3)) = Some (IsError err1) /\ Unwrap err1 = None.
Proof.
  apply (unwrap_reaches_innermost err3 [err2; err1]).
  cbn [is_chain]. repeat split.
Defined.

(** ** Further facts about strings *)

Lemma first_byte_app (s t : string) :
  first_byte (s +:+ t) = match first_byte s with
                         | Some c => Some c
                         | None => first_byte t
                         end.
Proof. now destruct s. Qed.

Lemma last_byte_app (s t : string) :
  last_byte (s +:+ t) = match last_byte t with
                        | Some c => Some c
                        | None => last_byte s
                        end.
Proof.
  induction s as [|a s IH]; cbn [String.append last_byte].
  - now destruct (last_byte t).
  - rewrite IH. now destruct (last_byte t), (last_byte s).
Qed.

Lemma last_byte_none (s : string) : last_byte s = None -> s = "".
Proof. destruct s as [|a s]; [reflexivity|]. intros H. now destruct (last_byte_cons a s). Qed.

Lemma contains_all_in (sub sup : string) (c : ascii) :
  all_in sup sub = true -> contains sub c = true -> contains sup c = true.
Proof.
  induction sub as [|d sub IH]; cbn [all_in contains]; [discriminate|].
  intros [Hd Hsub]%andb_true_iff.
  destruct (Ascii.eqb_spec c d) as [->|_]; [intros _; exact Hd | now apply IH].
Qed.

Lemma edge_ok_sub (sub sup : string) (b : option ascii) :
  all_in sup sub = true -> edge_ok sup b = true -> edge_ok sub b = true.
Proof.
  intros Hsub. destruct b as [c|]; [|reflexivity]. cbn [edge_ok].
  destruct (contains sub c) eqn:Hc; [|reflexivity].
  now rewrite (contains_all_in sub sup c Hsub Hc).
Qed.

Lemma clean_edges_sub (sub sup s : string) :
  all_in sup sub = true -> clean_edges sup s = true -> clean_edges sub s = true.
Proof.
  intros Hsub [H1 H2]%andb_true_iff. unfold clean_edges.
  now rewrite (edge_ok_sub sub sup _ Hsub H1), (edge_ok_sub sub sup _ Hsub H2).
Qed.

Lemma edge_ok_spec (cut : string) (b : option ascii) :
  edge_ok cut b = true <-> (forall c, b = Some c -> contains cut c = false).
Proof.
  destruct b as [c|]; cbn [edge_ok]; split.
  - intros H d [= <-]. now apply negb_true_iff.
  - intros H. apply negb_true_iff. now apply H.
  - intros _ c. discriminate.
  - reflexivity.
Qed.

(** A text with clean edges is a fixed point of the trim. *)
Lemma Trim_clean (cut s : string) : clean_edges cut s = true -> Trim s cut = s.
Proof.
  intros [H1 H2]%andb_true_iff. unfold Trim.
  rewrite TrimRight_fixed by now apply edge_ok_spec.
  apply TrimLeft_fixed. now apply edge_ok_spec.
Qed.

Lemma clean_edges_Trim (cut s : string) : clean_edges cut (Trim s cut) = true.
Proof.
  unfold clean_edges. apply andb_true_iff. split; apply edge_ok_spec; intros c.
  - apply first_byte_Trim.
  - apply last_byte_Trim.
Qed.

Lemma clean_edges_app (cut s t : string) :
  s <> "" -> t <> "" ->
  edge_ok cut (first_byte s) = true -> edge_ok cut (last_byte t) = true ->
  clean_edges cut (s +:+ t) = true.
Proof.
  intros Hs Ht H1 H2. unfold clean_edges.
  rewrite first_byte_app, last_byte_app.
  destruct s as [|a s]; [contradiction|]. cbn [first_byte] in *.
  destruct (last_byte t) as [c|] eqn:HL.
  - now rewrite H1, H2.
  - now apply last_byte_none in HL.
Qed.

(** ** Induction along a chain of causes *)

Lemma errval_chain_ind (P : errval -> Prop) :
  (forall msg, P (Foreign msg)) ->
  (forall r : Error, Err r = None -> P (IsError r)) ->
  (forall (r : Error) e', Err r = Some e' -> P e' -> P (IsError r)) ->
  forall e, P e.
Proof.
  intros HF HN HS. fix IH 1. intros [r|msg].
  - destruct r as [m f k o ob c d [e'|]].
    + apply (HS _ e'); [reflexivity | apply IH].
    + apply HN. reflexivity.
  - apply HF.
Qed.

(** ** The renderer as a whole *)

Lemma eqb_append_nonempty (s t : string) : t <> "" -> String.eqb (s +:+ t) "" = false.
Proof.
  intros Ht. apply String.eqb_neq. destruct s; cbn [String.append]; [exact Ht | discriminate].
Qed.

Lemma chain_blocks_nonempty (err : Error) (e : errval) : chain_blocks err e <> [].
Proof. destruct e; discriminate. Qed.

Lemma concat_cons_nonempty (sep x : string) (l : list string) :
  l <> [] -> String.concat sep (x :: l) = x +:+ sep +:+ String.concat sep l.
Proof. destruct l; [contradiction | reflexivity]. Qed.

Lemma Error_loop_blocks (err : Error) : forall (e : errval) (ret : string),
  Error_loop err e ret
  = (if String.eqb ret "" then ret else ret +:+ nl)
    +:+ String.concat nl (map (String.append " - ") (chain_blocks err e)).
Proof.
  intros e. induction e as [msg | r Hr | r e' Hr IH] using errval_chain_ind; intros ret;
    unfold error in *.
  - cbn [Error_loop chain_blocks map String.concat]. now rewrite append_assoc.
  - cbn [Error_loop chain_blocks]. rewrite Hr.
    cbn [map String.concat]. now rewrite !append_assoc.
  - cbn [Error_loop chain_blocks]. rewrite Hr, IH.
    cbn [map]. rewrite concat_cons_nonempty.
    + rewrite !append_assoc.
      rewrite eqb_append_nonempty by (cbn; discriminate).
      now rewrite !append_assoc.
    + intros H. apply map_eq_nil in H. now apply chain_blocks_nonempty in H.
Qed.

Lemma Error_as_join (err : Error) :
  Error_Error err
  = Trim (String.concat nl (map (String.append " - ") (chain_blocks err (IsError err))))
      result_cutset.
Proof. unfold Error_Error. now rewrite Error_loop_blocks. Qed.

(** X1. The message is the trim of the blocks of the chain, each after
    [" - "], joined by line feeds; there is one block for each record of the
    chain and one for a wrapped value of another type, which ends it. *)
Theorem Error_is_join_of_blocks (err : Error) :
  Error_Error err
  = Trim (String.concat nl (map (String.append " - ") (chain_blocks err (IsError err))))
      result_cutset.
Proof. apply Error_as_join. Qed.

(** X2. No message begins or ends with a line feed, a dash, a space, a
    semicolon or a slash. *)
Theorem Error_edges_clean (err : Error) (c : ascii) :
  first_byte (Error_Error err) = Some c \/ last_byte (Error_Error err) = Some c ->
  ~ In c [LF; "-"; " "; ";"; "/"]%char.
Proof.
  intros H Hin.
  assert (Hc : contains result_cutset c = false).
  { destruct H as [H|H]; [now apply first_byte_Trim in H | now apply last_byte_Trim in H]. }
  cbn [In] in Hin.
  repeat (destruct Hin as [<-|Hin]; [vm_compute in Hc; discriminate Hc|]).
  exact Hin.
Qed.

(** The message of a record that wraps nothing, and of one that wraps a
    value of another type. *)
Lemma Error_no_cause (r : Error) :
  Err r = None ->
  Error_Error r = Trim (Trim (block r r) block_cutset) result_cutset.
Proof.
  intros Hr. unfold error in Hr. rewrite Error_as_join.
  cbn [chain_blocks]. rewrite Hr. cbn [map String.concat].
  now apply Trim_app_in_l.
Qed.

Lemma Error_foreign_cause (r : Error) (msg : string) :
  Err r = Some (Foreign msg) ->
  Error_Error r
  = Trim (Trim (block r r) block_cutset +:+ nl +:+ " - " +:+ msg) result_cutset.
Proof.
  intros Hr. unfold error in Hr. rewrite Error_as_join.
  cbn [chain_blocks]. rewrite Hr. cbn [chain_blocks map String.concat].
  rewrite append_assoc. now apply Trim_app_in_l.
Qed.

Lemma Error_loop_ext (err err' : Error) :
  Kind err = Kind err' -> Code err = Code err' ->
  forall (e : errval) (ret : string), Error_loop err e ret = Error_loop err' e ret.
Proof.
  intros HK HC.
  assert (Hb : forall r, block err r = block err' r).
  { intros r. unfold block. now rewrite HK, HC. }
  intros e. induction e as [msg | r Hr | r e' Hr IH] using errval_chain_ind; intros ret;
    unfold error in *; cbn [Error_loop]; rewrite ?Hr, ?Hb; [reflexivity .. | apply IH].
Qed.

Lemma if_empty (d : string) : (if String.eqb d "" then "" else d) = d.
Proof. now destruct (String.eqb_spec d "") as [->|]. Qed.

Lemma last_byte_app_nonempty (p m : string) : m <> "" -> last_byte (p +:+ m) = last_byte m.
Proof.
  intros Hm. rewrite last_byte_app. destruct (last_byte m) eqn:HL; [reflexivity|].
  now apply last_byte_none in HL.
Qed.

Lemma first_byte_app_nonempty (k t : string) : k <> "" -> first_byte (k +:+ t) = first_byte k.
Proof. destruct k; [contradiction | reflexivity]. Qed.

Lemma clean_edges_first (cut s : string) :
  clean_edges cut s = true -> edge_ok cut (first_byte s) = true.
Proof. now intros [H _]%andb_true_iff. Qed.

Lemma clean_edges_last (cut s : string) :
  clean_edges cut s = true -> edge_ok cut (last_byte s) = true.
Proof. now intros [_ H]%andb_true_iff. Qed.

(** The three cutsets are within [trimmed_bytes]. *)
Lemma clean_for_details (s : string) :
  clean_edges trimmed_bytes s = true -> clean_edges "; " s = true.
Proof. now apply clean_edges_sub. Qed.

Lemma clean_for_block (s : string) :
  clean_edges trimmed_bytes s = true -> clean_edges block_cutset s = true.
Proof. now apply clean_edges_sub. Qed.

Lemma clean_for_result (s : string) :
  clean_edges trimmed_bytes s = true -> clean_edges result_cutset s = true.
Proof. now apply clean_edges_sub. Qed.

Section Rendering.

Context {Value : Type} (Sprint : Value -> string).

Lemma E_text (d : string) :
  clean_edges trimmed_bytes d = true ->
  E Sprint [ArgString d] = set_Details d zeroError.
Proof.
  intros Hd. unfold E, e. cbn [e_loop fold_left e_step set_Details Details zeroError
    Module Function Kind Operation Object Code Err].
  change ("" +:+ ?s) with s. rewrite Trim_app_in_l by reflexivity.
  now rewrite Trim_clean by now apply clean_for_details.
Qed.

Lemma block_text_only (d : string) (c : error) :
  block (mkError "" "" "" "" "" "" d c) (mkError "" "" "" "" "" "" d c)
  = (nl +:+ "   ") +:+ d.
Proof.
  rewrite block_split. unfold block_head, kind_part, block_tail.
  cbn [Module Function Kind Operation Object Code Details].
  change (String.eqb "" "") with true. cbn iota zeta.
  now rewrite if_empty.
Qed.

Lemma block_kind_text (k d : string) (c : error) :
  k <> "" ->
  block (mkError "" "" k "" "" "" d c) (mkError "" "" k "" "" "" d c)
  = (nl +:+ "   ") +:+ k +:+ ": " +:+ d.
Proof.
  intros Hk. rewrite block_split. unfold block_head, kind_part, block_tail.
  cbn [Module Function Kind Operation Object Code Details].
  change (String.eqb "" "") with true. cbn iota zeta.
  apply String.eqb_neq in Hk. rewrite Hk, if_empty.
  now rewrite !append_assoc.
Qed.

Lemma render_text_only (d : string) :
  clean_edges trimmed_bytes d = true ->
  Error_Error (E Sprint [ArgString d]) = d.
Proof.
  intros Hd. rewrite E_text by exact Hd.
  rewrite Error_no_cause by reflexivity.
  change (set_Details d zeroError) with (mkError "" "" "" "" "" "" d (@None errval)).
  rewrite block_text_only, Trim_app_in_l by reflexivity.
  rewrite (Trim_clean block_cutset) by now apply clean_for_block.
  now apply Trim_clean, clean_for_result.
Qed.

Lemma render_kind_only (k : string) :
  clean_edges trimmed_bytes k = true ->
  Error_Error (E Sprint [ArgKind k]) = k.
Proof.
  intros Hk. rewrite Error_no_cause by reflexivity.
  change (E Sprint [ArgKind k]) with (mkError "" "" k "" "" "" "" (@None errval)).
  destruct (String.eqb_spec k "") as [->|Hne]; [reflexivity|].
  rewrite block_kind_text, Trim_app_in_l by first [exact Hne | reflexivity].
  rewrite Trim_app_in_r by reflexivity.
  rewrite (Trim_clean block_cutset) by now apply clean_for_block.
  now apply Trim_clean, clean_for_result.
Qed.

(** X3. A text, or a kind, that neither begins nor ends with one of the
    bytes the package trims is the whole message of the error made of it. *)
Theorem message_round_trip (d : string) :
  clean_edges trimmed_bytes d = true ->
  Error_Error (E Sprint [ArgString d]) = d
  /\ Error_Error (E Sprint [ArgKind d]) = d.
Proof. intros Hd. split; [now apply render_text_only | now apply render_kind_only]. Qed.

(** X4. A kind and a text, both non-empty and with clean edges, render as
    ["kind: text"]. *)
Theorem kind_and_text_rendering (k d : string) :
  k <> "" -> d <> "" ->
  clean_edges trimmed_bytes k = true -> clean_edges trimmed_bytes d = true ->
  Error_Error (E Sprint [ArgKind k; ArgString d]) = k +:+ ": " +:+ d.
Proof.
  intros Hk Hd Ck Cd. rewrite Error_no_cause by reflexivity.
  assert (HE : E Sprint [ArgKind k; ArgString d] = mkError "" "" k "" "" "" d (@None errval)).
  { unfold E, e. cbn [e_loop fold_left e_step set_Details set_Kind Details zeroError
      Module Function Kind Operation Object Code Err].
    change ("" +:+ ?x) with x. rewrite Trim_app_in_l by reflexivity.
    now rewrite Trim_clean by now apply clean_for_details. }
  rewrite HE, block_kind_text, Trim_app_in_l by first [exact Hk | reflexivity].
  assert (Hclean : forall cut, all_in trimmed_bytes cut = true ->
                               clean_edges cut (k +:+ ": " +:+ d) = true).
  { intros cut Hcut. apply clean_edges_app; [exact Hk | discriminate | |].
    - apply (edge_ok_sub cut trimmed_bytes _ Hcut). now apply clean_edges_first.
    - rewrite last_byte_app_nonempty by exact Hd.
      apply (edge_ok_sub cut trimmed_bytes _ Hcut). now apply clean_edges_last. }
  rewrite (Trim_clean block_cutset) by now apply Hclean.
  now apply Trim_clean, Hclean.
Qed.

(** X5. Wrapping a value of another type: with a text, or with a kind, of
    clean edges the message is that text, a line feed, [" - "] and the
    message of the wrapped value. *)
Theorem wrapped_foreign_rendering (h m : string) :
  h <> "" -> m <> "" ->
  clean_edges trimmed_bytes h = true ->
  edge_ok result_cutset (last_byte m) = true ->
  Error_Error (E Sprint [ArgString h; ArgError (Foreign m)]) = h +:+ nl +:+ " - " +:+ m
  /\ Error_Error (E Sprint [ArgError (Foreign m); ArgKind h]) = h +:+ nl +:+ " - " +:+ m.
Proof.
  intros Hh Hm Ch Cm.
  assert (Hclean : clean_edges result_cutset (h +:+ nl +:+ " - " +:+ m) = true).
  { apply clean_edges_app; [exact Hh | discriminate | |].
    - now apply clean_edges_first, clean_for_result.
    - rewrite <- append_assoc. now rewrite last_byte_app_nonempty by exact Hm. }
  split.
  - assert (HE : E Sprint [ArgString h; ArgError (Foreign m)]
                 = mkError "" "" "" "" "" "" h (Some (Foreign m))).
    { unfold E, e. cbn [e_loop fold_left e_step set_Details set_Err Details zeroError
        Module Function Kind Operation Object Code Err].
      change ("" +:+ ?x) with x. rewrite Trim_app_in_l by reflexivity.
      now rewrite Trim_clean by now apply clean_for_details. }
    rewrite HE, (Error_foreign_cause _ m) by reflexivity.
    rewrite block_text_only, (Trim_app_in_l block_cutset (nl +:+ "   ")) by reflexivity.
    rewrite (Trim_clean block_cutset) by now apply clean_for_block.
    now apply Trim_clean.
  - rewrite (Error_foreign_cause _ m) by reflexivity.
    change (E Sprint [ArgError (Foreign m); ArgKind h])
      with (mkError "" "" h "" "" "" "" (Some (Foreign m))).
    rewrite block_kind_text by exact Hh.
    rewrite (Trim_app_in_l block_cutset (nl +:+ "   ")) by reflexivity.
    rewrite (Trim_app_in_r block_cutset h) by reflexivity.
    rewrite (Trim_clean block_cutset) by now apply clean_for_block.
    now apply Trim_clean.
Qed.

(** X6. A record without any attribute of its own adds nothing to the
    message of the value of another type it wraps. *)
Theorem bare_wrapper_rendering (m : string) :
  Error_Error (E Sprint [ArgError (Foreign m)]) = Trim m result_cutset.
Proof.
  rewrite (Error_foreign_cause _ m) by reflexivity.
  change (Trim (block _ _) block_cutset) with "".
  now apply (Trim_app_in_l result_cutset (nl +:+ " - ") m).
Qed.

End Rendering.

(** X7. When the outermost record has no kind, the kind of the record it
    wraps is not rendered: the message is the same whatever that kind is. *)
Theorem kind_hidden_by_kindless_wrapper (outer inner : Error) (k : string) :
  Kind outer = "" ->
  Err outer = Some (IsError inner) ->
  Error_Error (set_Err (Some (IsError (set_Kind k inner))) outer) = Error_Error outer.
Proof.
  intros HK HE. unfold error in HE. unfold Error_Error.
  rewrite (Error_loop_ext _ outer) by reflexivity.
  cbn [Error_loop]. rewrite HE.
  change (Err (set_Err ?x outer)) with x. cbn iota.
  change (block outer (set_Err (Some (IsError (set_Kind k inner))) outer))
    with (block outer outer).
  cbn [Error_loop].
  change (Err (set_Kind k inner)) with (Err inner).
  replace (block outer (set_Kind k inner)) with (block outer inner); [reflexivity|].
  unfold block. rewrite HK. reflexivity.
Qed.

(** X8. Each of the twelve predefined kinds is the whole message of the
    error made of it alone, and no two of them are the same text. *)
Theorem predefined_kinds_render :
  Forall (fun k => Error_Error (E Sprint_int [ArgKind k]) = k) predefined_kinds
  /\ NoDup predefined_kinds.
Proof.
  split.
  - unfold predefined_kinds. repeat constructor; now apply render_kind_only.
  - apply (bool_decide_unpack _). vm_compute. reflexivity.
Qed.

(** ** Classification in several steps *)

Section Composition.

Context {Value : Type} (Sprint : Value -> string).
Implicit Types (err r : Error) (a b : arg Value) (args pre post : list (arg Value)).

Lemma e_step_set_Details (d : string) r a :
  e_step Sprint (set_Details d r) a
  = set_Details (d +:+ detail_text Sprint a) (e_step Sprint r a).
Proof.
  destruct a; cbn [e_step detail_text]; unfold set_Details, set_Module, set_Function,
    set_Kind, set_Operation, set_Object, set_Code, set_Err;
    cbn [Module Function Kind Operation Object Code Details Err];
    rewrite ?append_empty_r; reflexivity.
Qed.

(** The details the loop starts from only show as the beginning of the
    details it ends with. *)
Lemma e_loop_set_Details args : forall (d : string) r,
  e_loop Sprint (set_Details d r) args
  = set_Details (d +:+ details_added Sprint args) (e_loop Sprint r args).
Proof.
  induction args as [|a args IH]; intros d r.
  - cbn [e_loop fold_left details_added]. rewrite append_empty_r.
    reflexivity.
  - rewrite !e_loop_cons, e_step_set_Details, IH. cbn [details_added].
    now rewrite append_assoc.
Qed.

Lemma set_Details_twice (d d' : string) r :
  set_Details d (set_Details d' r) = set_Details d r.
Proof. reflexivity. Qed.

Lemma e_two_steps err pre post :
  e Sprint (e Sprint err pre) post
  = set_Details (Trim (Details (e Sprint err pre) +:+ details_added Sprint post) "; ")
      (e_loop Sprint err (pre ++ post)).
Proof.
  unfold e. cbn zeta. rewrite e_loop_set_Details, e_loop_app. reflexivity.
Qed.

(** X9. Deriving in two steps and classifying the two lists at once give
    the same six singular fields and the same cause. *)
Theorem two_steps_same_attributes err pre post :
  (forall c, field c (e Sprint (e Sprint err pre) post) = field c (e Sprint err (pre ++ post)))
  /\ Err (e Sprint (e Sprint err pre) post) = Err (e Sprint err (pre ++ post)).
Proof.
  rewrite e_two_steps. split; [intros c; now destruct c | reflexivity].
Qed.

Lemma details_added_none args :
  (forall x, ~ In (ArgString x) args) -> (forall v, ~ In (ArgOther v) args) ->
  details_added Sprint args = "".
Proof.
  induction args as [|a args IH]; intros HS HO; [reflexivity|].
  cbn [details_added]. rewrite IH.
  - destruct a; try reflexivity.
    + destruct (HS x). now left.
    + destruct (HO x). now left.
  - intros x Hx. apply (HS x). now right.
  - intros v Hv. apply (HO v). now right.
Qed.

(** X10. When the second list holds no detail (no text and no value of
    another type), deriving in two steps gives the very record that
    classifying the two lists at once gives. *)
Theorem two_steps_without_details err pre post :
  (forall x, ~ In (ArgString x) post) -> (forall v, ~ In (ArgOther v) post) ->
  e Sprint (e Sprint err pre) post = e Sprint err (pre ++ post).
Proof.
  intros HS HO. rewrite e_two_steps, details_added_none by assumption.
  rewrite append_empty_r. rewrite Details_e, Trim_idempotent.
  unfold e. cbn zeta. f_equal.
  rewrite e_loop_app, (Details_e_loop Sprint post).
  rewrite details_added_none by assumption.
  now rewrite append_empty_r.
Qed.

Lemma e_step_swap r a b :
  independent a b = true ->
  e_step Sprint (e_step Sprint r a) b = e_step Sprint (e_step Sprint r b) a.
Proof.
  destruct a, b; cbn [independent slot Nat.eqb negb]; intros H;
    try discriminate H; reflexivity.
Qed.

(** X11. Two neighbouring arguments that do not write to the same field
    (and are not both details) can change places without changing the
    record. *)
Theorem independent_arguments_commute err pre a b post :
  independent a b = true ->
  e Sprint err (pre ++ a :: b :: post) = e Sprint err (pre ++ b :: a :: post).
Proof.
  intros H. unfold e. cbn zeta.
  now rewrite !e_loop_app, !e_loop_cons, (e_step_swap _ a b H).
Qed.

(** X12. The record wraps nothing exactly when the record classification
    starts from wraps nothing and no cause is among the arguments. *)
Theorem no_cause_iff err args :
  Unwrap (e Sprint err args) = None
  <-> Err err = None /\ (forall y, ~ In (ArgError y) args).
Proof.
  unfold Unwrap. rewrite Err_e. split.
  - intros H. split.
    + destruct (Err err) eqn:HE; [|reflexivity].
      destruct (Err_e_loop_some Sprint args err); [now rewrite HE | exact H].
    + intros y Hy. apply in_split in Hy as (pre & post & ->).
      rewrite e_loop_app, e_loop_cons in H.
      now apply (Err_e_loop_some Sprint post (e_step Sprint (e_loop Sprint err pre) (ArgError y))).
  - intros [HE Hno]. now rewrite Err_e_loop_absent.
Qed.

Lemma details_added_others (vs : list Value) :
  details_added Sprint (map ArgOther vs) =
  match vs with
  | [] => ""
  | _ :: _ => String.concat "; " (map Sprint vs) +:+ "; "
  end.
Proof.
  induction vs as [|v vs IH]; [reflexivity|].
  cbn [map details_added detail_text]. rewrite IH.
  destruct vs as [|v' vs].
  - cbn [map String.concat]. now rewrite append_empty_r.
  - cbn [map String.concat]. now rewrite !append_assoc.
Qed.

(** X13. Values of other types only, from the empty record: [Details] is
    the trim of their renderings joined with ["; "]. *)
Theorem details_of_other_values (vs : list Value) :
  Details (E Sprint (map ArgOther vs)) = Trim (String.concat "; " (map Sprint vs)) "; ".
Proof.
  unfold E. rewrite Details_e, Details_e_loop, details_added_others.
  destruct vs as [|v vs]; [reflexivity|].
  cbn [zeroError Details]. change ("" +:+ ?s) with s.
  now apply Trim_app_in_r.
Qed.

Lemma TrimRight_app_keeps (cut s t : string) (c : ascii) :
  last_byte s = Some c -> contains cut c = false ->
  exists rest, TrimRight (s +:+ t) cut = s +:+ rest.
Proof.
  intros HL Hc. induction s as [|a s IH]; [discriminate|].
  cbn [String.append TrimRight].
  destruct s as [|b s].
  - cbn in HL. injection HL as ->. cbn [String.append].
    destruct (TrimRight t cut) as [|d kept].
    + rewrite Hc. now exists "".
    + now exists (String d kept).
  - destruct IH as [rest Hrest].
    { cbn [last_byte] in HL |- *. destruct (last_byte s); exact HL. }
    rewrite Hrest. cbn [String.append]. now exists rest.
Qed.

Lemma Trim_app_keeps (cut s t : string) :
  clean_edges cut s = true -> exists rest, Trim (s +:+ t) cut = s +:+ rest.
Proof.
  intros [HF HL]%andb_true_iff.
  destruct s as [|a s]; [now exists (Trim t cut)|].
  destruct (last_byte (String a s)) as [c|] eqn:Hlast;
    [| now destruct (last_byte_cons a s)].
  cbn [edge_ok first_byte] in HF, HL.
  apply negb_true_iff in HF, HL.
  destruct (TrimRight_app_keeps cut (String a s) t c Hlast HL) as [rest Hrest].
  exists rest. unfold Trim. rewrite Hrest. cbn [String.append TrimLeft]. now rewrite HF.
Qed.

(** X14. The details of a template that classification made are the
    beginning of the details of every record derived from it. *)
Theorem template_details_are_prefix (tpl0 : Template) pre args :
  exists rest,
    Details (Template_E Sprint (Template_T Sprint tpl0 pre) args)
    = Details (Template_T Sprint tpl0 pre) +:+ rest.
Proof.
  unfold Template_E, Template_T.
  rewrite (Details_e Sprint (e Sprint tpl0 pre) args), Details_e_loop.
  apply Trim_app_keeps. rewrite Details_e. apply clean_edges_Trim.
Qed.

End Composition.

(** ** Instances of the further properties *)

(** The message of [err3] begins with ['e'] and ends with ['t']. *)
Lemma Error_edges_clean_witness :
  ~ In "e"%char [LF; "-"; " "; ";"; "/"]%char /\ ~ In "t"%char [LF; "-"; " "; ";"; "/"]%char.
Proof.
  split.
  - apply (Error_edges_clean err3 "e"%char). left. vm_compute. reflexivity.
  - apply (Error_edges_clean err3 "t"%char). right. vm_compute. reflexivity.
Defined.

(** [E("file does not exist")] of [ExampleE]. *)
Lemma message_round_trip_witness :
  Error_Error (E Sprint_int [ArgString "file does not exist"]) = "file does not exist"
  /\ Error_Error (E Sprint_int [ArgKind "file does not exist"]) = "file does not exist".
Proof.
  apply (message_round_trip Sprint_int "file does not exist").
  vm_compute. reflexivity.
Defined.

Lemma kind_and_text_rendering_witness :
  Error_Error (E Sprint_int [ArgKind IllegalValue; ArgString "{1 2}"])
  = IllegalValue +:+ ": " +:+ "{1 2}".
Proof.
  apply (kind_and_text_rendering Sprint_int IllegalValue "{1 2}").
  - discriminate.
  - discriminate.
  - vm_compute. reflexivity.
  - vm_compute. reflexivity.
Defined.

(** [E(otherErr, Kind("wrapper"))] of [ExampleE]. *)
Lemma wrapped_foreign_rendering_witness :
  Error_Error (E Sprint_int [ArgString "wrapper"; ArgError (Foreign "other error")])
  = "wrapper" +:+ nl +:+ " - " +:+ "other error"
  /\ Error_Error (E Sprint_int [ArgError (Foreign "other error"); ArgKind "wrapper"])
     = "wrapper" +:+ nl +:+ " - " +:+ "other error".
Proof.
  apply (wrapped_foreign_rendering Sprint_int "wrapper" "other error").
  - discriminate.
  - discriminate.
  - vm_compute. reflexivity.
  - vm_compute. reflexivity.
Defined.

(** [err2] has no kind and wraps [err1]: giving [err1] a kind does not show. *)
Lemma kind_hidden_by_kindless_wrapper_witness :
  Error_Error (set_Err (Some (IsError (set_Kind NotFound err1))) err2) = Error_Error err2.
Proof.
  apply (kind_hidden_by_kindless_wrapper err2 err1 NotFound).
  - vm_compute. reflexivity.
  - vm_compute. reflexivity.
Defined.

(** [etpl1.T(Obj("etpl2"))] of [ExampleTemplate_T]. *)
Lemma two_steps_without_details_witness :
  e Sprint_int (e Sprint_int zeroError [ArgFunc "Template.T example"]) [ArgObj "etpl2"]
  = e Sprint_int zeroError ([ArgFunc "Template.T example"] ++ [ArgObj "etpl2"]).
Proof.
  apply (two_steps_without_details Sprint_int zeroError
           [ArgFunc "Template.T example"] [ArgObj "etpl2"]).
  - intros x [H|[]]. discriminate H.
  - intros v [H|[]]. discriminate H.
Defined.

Lemma independent_arguments_commute_witness :
  e Sprint_int zeroError ([ArgMod "example"] ++ ArgString "detail" :: ArgKind NotFound :: [])
  = e Sprint_int zeroError ([ArgMod "example"] ++ ArgKind NotFound :: ArgString "detail" :: []).
Proof.
  apply (independent_arguments_commute Sprint_int zeroError [ArgMod "example"]
           (ArgString "detail") (ArgKind NotFound) []).
  reflexivity.
Defined.

Lemma no_cause_iff_witness :
  Unwrap (e Sprint_int zeroError [ArgKind NotFound; ArgString "detail"]) = None.
Proof.
  apply (proj2 (no_cause_iff Sprint_int zeroError [ArgKind NotFound; ArgString "detail"])).
  split; [reflexivity|].
  intros y [H|[H|[]]]; discriminate H.
Defined.
